(** * ARK tensors and schedulers: a shallow embedding

    The development follows [ark/tensor.cc] (the [Tensor] constructor,
    [Tensor::update_pads], [Tensor::offset], [Tensor::size],
    [Tensor::ndims]), [ark/sched/sched.h] (the scheduler classes) and
    [ark/ops/ops_transpose_test.cc] (the positions the transpose unit
    test compares).

    Part 1 holds the definitions: the embedded functions, each under the
    name it has in the program, and next to them the vocabulary of the
    statements.  Part 2 holds the lemmas and the theorems.

    [DimType] is a signed 64-bit integer in the program.  Signed overflow
    is undefined behaviour in C++, so the arithmetic below is the
    arithmetic of [Z]: every statement is about executions in which no
    product or sum leaves the 64-bit range. *)

From Stdlib Require Import ZArith Lia List String Bool Sorted.
From stdpp Require Import base list.

Local Open Scope Z_scope.

(** * Part 1: definitions *)

(** ** Errors *)

(** How a function of the program can end without a result:
    [ShapeInvalid] is the error of section 7 of the spec,
    [ArithmeticFault] an integer division or remainder whose divisor is
    zero, which the program does not survive. *)
Inductive Error : Type :=
  | ShapeInvalid
  | ArithmeticFault.

Inductive Result (A : Type) : Type :=
  | Ok (a : A)
  | Err (e : Error).

Arguments Ok {A} a.
Arguments Err {A} e.

Global Instance Result_bind : MBind Result := fun A B k r =>
  match r with
  | Ok a => k a
  | Err e => Err e
  end.

(** Modelled from the spec: the macros [LOGERR(...)] and
    [LOG(ERROR, ...)] of [logging.h], a file outside the sources this
    development covers.  Section 7 makes every shape violation fatal and
    section 4.2 has construction signal [ShapeInvalid]; the macro ends
    the running function with that error. *)
Definition LOGERR {A : Type} : Result A := Err ShapeInvalid.

(** [for (int i = 0; i < n; ++i) body(i)] for a body that can fail. *)
Fixpoint for_loop (i steps : nat) (body : nat -> Result unit) : Result unit :=
  match steps with
  | O => Ok tt
  | S k => body i ;; for_loop (S i) k body
  end.

(** ** Dims

    The class [Dims] ([dims.h], [dims.cc]) is outside the sources this
    development covers; [tensor.cc] uses its constructors, [size()],
    [ndims()], [is_no_dim()] and [operator[]]. *)

Abbreviation DimType := Z.

(** Modelled from the spec: the class [Dims].  Section 3 describes it
    as an ordered integer vector of at most four components with a
    distinguished "no-dim" sentinel, component access and the element
    count.  A [Dims] is the list of its components and the sentinel is
    the [Dims] without components. *)
Abbreviation Dims := (list DimType).

(** Modelled from the spec: the largest number of components of a
    [Dims], four (section 3). *)
Definition DIMS_LEN : nat := 4.

(** Modelled from the spec: the "no-dim" sentinel (section 3). *)
Definition no_dim : Dims := [].

(** Modelled from the spec: [Dims::ndims()], the number of
    components. *)
Definition Dims_ndims (d : Dims) : nat := length d.

(** Modelled from the spec: [Dims::is_no_dim()]. *)
Definition Dims_is_no_dim (d : Dims) : bool :=
  match d with
  | [] => true
  | _ :: _ => false
  end.

(** Modelled from the spec: [Dims::size()], the element count, which is
    the product of the components (section 3).  The program compares
    the count of a sentinel only against zero; the empty product is
    one. *)
Definition Dims_size (d : Dims) : DimType := fold_right Z.mul 1 d.

(** Modelled from the spec: [Dims::operator[]], component access.
    Every loop of the program reads at [i < ndims] of vectors that have
    [ndims] components; the value at other positions is not used by any
    statement below. *)
Definition Dims_at (d : Dims) (i : nat) : DimType := nth i d 0.

(** Modelled from the spec: the constructor of [Dims] from a vector.
    Section 4.1 has it fail with [ShapeInvalid] on more than four
    components and on components that are not positive.  Negative
    components and a fifth component are refused here.  A zero
    component passes: [Tensor::Tensor] builds its default all-zero
    [offs] through this constructor, and refuses a shape with a zero
    component itself, by its test [shape_.size() == 0]. *)
Definition Dims_of_vector (v : list DimType) : Result Dims :=
  if (DIMS_LEN <? length v)%nat then LOGERR
  else if existsb (fun x => x <? 0) v then LOGERR
  else Ok v.

(** Modelled from the spec: the invariant of a [Dims] object, whichever
    constructor built it: at most four components, none negative. *)
Definition Dims_valid (d : Dims) : Prop :=
  (length d <= DIMS_LEN)%nat /\ Forall (fun x => 0 <= x) d.

(** ** math

    [math::lcm] and [math::pad] ([math.h]) are outside the sources this
    development covers; [Tensor::update_pads] calls them with positive
    units. *)

(** Modelled from the spec: [math::lcm], the least common multiple
    [lcm(a,b)] of section 4.1. *)
Definition math_lcm (a b : DimType) : DimType := Z.lcm a b.

(** Modelled from the spec: the quotient rounded up, [ceil(x/unit)] of
    section 4.1. *)
Definition ceil_div (x u : Z) : Z := - ((- x) / u).

(** Modelled from the spec: [math::pad],
    [pad(x, unit) = ceil(x/unit) * unit] (section 4.1). *)
Definition math_pad (x u : DimType) : DimType := ceil_div x u * u.

(** ** Tensor

    [tensor.h] is outside the sources this development covers; the
    members of [Tensor] and [TensorBuf] are those the constructors in
    [tensor.cc] initialise. *)

Inductive TensorType : Type := FP16 | FP32 | INT32 | BYTE.

Record TensorBuf : Type := mkTensorBuf {
  tb_bytes : DimType;
  tb_id : Z
}.

Record Tensor : Type := mkTensor {
  buf : option TensorBuf;
  type : TensorType;
  exported : bool;
  imported_rank : Z;
  id : Z;
  name : string;
  shape : Dims;
  ldims : Dims;
  offs : Dims;
  pads : Dims
}.

(** The bodies of the two checking loops that end the constructor.
    [ldims[i] % pads[i]] is the remainder of C++, [Z.rem]; with a zero
    divisor the program faults. *)
Definition check_multiple (ldims_ pads_ : Dims) (i : nat) : Result unit :=
  if Dims_at pads_ i =? 0 then Err ArithmeticFault
  else if negb (Z.rem (Dims_at ldims_ i) (Dims_at pads_ i) =? 0) then LOGERR
  else Ok tt.

Definition check_boundary (shape_ ldims_ offs_ : Dims) (i : nat) : Result unit :=
  if Dims_at offs_ i + Dims_at shape_ i >? Dims_at ldims_ i then LOGERR
  else Ok tt.

(** [Tensor::Tensor].  [this->shape = {1}] stores the one-component
    shape; the default [offs] and [pads] are built with [push_back] and
    handed to the vector constructor of [Dims]. *)
Definition Tensor_new (shape_ : Dims) (type_ : TensorType)
    (buf_ : option TensorBuf) (ldims_ offs_ pads_ : Dims)
    (exported_ : bool) (imported_rank_ id_ : Z) (name_ : string)
    : Result Tensor :=
  this_shape ←
    (if Dims_size shape_ =? 0 then LOGERR
     else if Dims_is_no_dim shape_ then Ok [1]
     else Ok shape_);
  let ndims := Dims_ndims this_shape in
  this_ldims ←
    (if Dims_is_no_dim ldims_ then Ok this_shape
     else if negb (ndims =? Dims_ndims ldims_)%nat then LOGERR
     else Ok ldims_);
  this_offs ←
    (if Dims_is_no_dim offs_ then Dims_of_vector (repeat 0 ndims)
     else if negb (ndims =? Dims_ndims offs_)%nat then LOGERR
     else Ok offs_);
  this_pads ←
    (if Dims_is_no_dim pads_ then Dims_of_vector (repeat 1 ndims)
     else if negb (ndims =? Dims_ndims pads_)%nat then LOGERR
     else Ok pads_);
  for_loop 0 ndims (check_multiple this_ldims this_pads) ;;
  for_loop 0 ndims (check_boundary this_shape this_ldims this_offs) ;;
  Ok {| buf := buf_; type := type_; exported := exported_;
        imported_rank := imported_rank_; id := id_; name := name_;
        shape := this_shape; ldims := this_ldims;
        offs := this_offs; pads := this_pads |}.

(** [Tensor::ndims] and [Tensor::size]. *)
Definition Tensor_ndims (t : Tensor) : nat := Dims_ndims (shape t).


(** [Tensor::offset]. *)
Definition Tensor_offset (t : Tensor) (i0 i1 i2 i3 : DimType) : DimType :=
  let l := Dims_at (ldims t) in
  let o := Dims_at (offs t) in
  match Dims_ndims (shape t) with
  | 0%nat => 0
  | 1%nat => o 0%nat + i0
  | 2%nat => ((o 0%nat + i0) * l 1%nat) + o 1%nat + i1
  | 3%nat => ((o 0%nat + i0) * l 1%nat * l 2%nat)
             + ((o 1%nat + i1) * l 2%nat) + o 2%nat + i2
  | _ => ((o 0%nat + i0) * l 1%nat * l 2%nat * l 3%nat)
         + ((o 1%nat + i1) * l 2%nat * l 3%nat)
         + ((o 2%nat + i2) * l 3%nat) + o 3%nat + i3
  end.

(** One step of the last loop of [Tensor::update_pads]:
    [pads[i] = lcm(pads[i], new_pads[i]); ldims[i] = pad(ldims[i], pads[i])]. *)
Definition update_pads_step (new_pads : Dims) (t : Tensor) (i : nat) : Tensor :=
  let new_udim := math_lcm (Dims_at (pads t) i) (Dims_at new_pads i) in
  {| buf := buf t; type := type t; exported := exported t;
     imported_rank := imported_rank t; id := id t; name := name t;
     shape := shape t;
     ldims := <[i := math_pad (Dims_at (ldims t) i) new_udim]> (ldims t);
     offs := offs t;
     pads := <[i := new_udim]> (pads t) |}.

(** The first loop of [Tensor::update_pads]: every pad has to be
    positive. *)
Definition check_positive (p : DimType) : Result unit :=
  if p <=? 0 then LOGERR else Ok tt.

Fixpoint check_all_positive (ps : list DimType) : Result unit :=
  match ps with
  | [] => Ok tt
  | p :: ps' => check_positive p ;; check_all_positive ps'
  end.

(** The vector [tmp] of [Tensor::update_pads] after its two filling
    loops: [ndims - pads_.size()] ones, then the entries of [pads_].
    The difference is a signed one in the program; when it is negative
    the first loop does not run, which is what the truncated difference
    of [nat] gives to [repeat]. *)
Definition aligned_pads (ndims : nat) (pads_ : list DimType) : list DimType :=
  repeat 1 (ndims - length pads_)%nat ++ pads_.

(** [Tensor::update_pads]. *)
Definition Tensor_update_pads (t : Tensor) (pads_ : list DimType) : Result Tensor :=
  check_all_positive pads_ ;;
  let ndims := Dims_ndims (ldims t) in
  let tmp := aligned_pads ndims pads_ in
  new_pads ← Dims_of_vector tmp;
  Ok (fold_left (update_pads_step new_pads) (seq 0 ndims) t).

(** ** The offset law (section 3) next to [Tensor::offset]

    The second definition follows the words of the data model: the
    offset is the sum, over the axes [i] of an [n]-dimensional tensor,
    of [(offs[i] + idx[i])] times the product of [ldims[j]] for the axes
    [j > i]. *)

Definition ldims_after (l : Dims) (i n : nat) : Z :=
  fold_right Z.mul 1 (map (Dims_at l) (seq (S i) (n - S i))).

Definition offset_law (l o : Dims) (idx : list DimType) (n : nat) : Z :=
  fold_right Z.add 0
    (map (fun i => (Dims_at o i + nth i idx 0) * ldims_after l i n) (seq 0 n)).

(** The index vector [idx] is handed to [Tensor::offset] one component
    per parameter; components the vector does not have are the default
    argument 0. *)
Definition Tensor_offset_at (t : Tensor) (idx : list DimType) : DimType :=
  Tensor_offset t (nth 0 idx 0) (nth 1 idx 0) (nth 2 idx 0) (nth 3 idx 0).

(** ** What the constructor stores

    The attributes a successful construction stores, as functions of the
    arguments: the sentinel shape becomes [{1}], a sentinel [ldims]
    becomes the shape, a sentinel [offs] all zeros and a sentinel [pads]
    all ones. *)

Definition stored_shape (shape_ : Dims) : Dims :=
  if Dims_is_no_dim shape_ then [1] else shape_.

Definition stored_ldims (shape_ ldims_ : Dims) : Dims :=
  if Dims_is_no_dim ldims_ then stored_shape shape_ else ldims_.

Definition stored_offs (shape_ offs_ : Dims) : Dims :=
  if Dims_is_no_dim offs_ then repeat 0 (Dims_ndims (stored_shape shape_)) else offs_.

Definition stored_pads (shape_ pads_ : Dims) : Dims :=
  if Dims_is_no_dim pads_ then repeat 1 (Dims_ndims (stored_shape shape_)) else pads_.

(** The invariants of section 3 on the four vectors of a tensor. *)
Definition same_ndims (s l o p : Dims) : Prop :=
  Dims_ndims l = Dims_ndims s /\ Dims_ndims o = Dims_ndims s /\
  Dims_ndims p = Dims_ndims s.

Definition ldims_multiple_of_pads (s l p : Dims) : Prop :=
  forall i, (i < Dims_ndims s)%nat -> (Dims_at p i | Dims_at l i).

Definition within_ldims (s l o : Dims) : Prop :=
  forall i, (i < Dims_ndims s)%nat -> Dims_at o i + Dims_at s i <= Dims_at l i.

Definition stored_tensor (shape_ : Dims) (type_ : TensorType)
    (buf_ : option TensorBuf) (ldims_ offs_ pads_ : Dims)
    (exported_ : bool) (imported_rank_ id_ : Z) (name_ : string) : Tensor :=
  {| buf := buf_; type := type_; exported := exported_;
     imported_rank := imported_rank_; id := id_; name := name_;
     shape := stored_shape shape_;
     ldims := stored_ldims shape_ ldims_;
     offs := stored_offs shape_ offs_;
     pads := stored_pads shape_ pads_ |}.


(** Construction of a tensor from a shape vector: the vector becomes a
    [Dims], the [Dims] goes to [Tensor::Tensor]. *)
Definition Tensor_of_shape_vector (v : list DimType) (type_ : TensorType)
    (buf_ : option TensorBuf) (ldims_ offs_ pads_ : Dims)
    (exported_ : bool) (imported_rank_ id_ : Z) (name_ : string)
    : Result Tensor :=
  shape_ ← Dims_of_vector v;
  Tensor_new shape_ type_ buf_ ldims_ offs_ pads_ exported_
             imported_rank_ id_ name_.

(** ** The tensors of a program

    A tensor is made by the constructor from four [Dims] objects and is
    changed afterwards only by [update_pads]. *)
Inductive constructed : Tensor -> Prop :=
  | constructed_new shape_ type_ buf_ ldims_ offs_ pads_ exported_
                    imported_rank_ id_ name_ t :
      Dims_valid shape_ -> Dims_valid ldims_ ->
      Dims_valid offs_ -> Dims_valid pads_ ->
      Tensor_new shape_ type_ buf_ ldims_ offs_ pads_ exported_
                 imported_rank_ id_ name_ = Ok t ->
      constructed t
  | constructed_update_pads t pads_ t' :
      constructed t ->
      Tensor_update_pads t pads_ = Ok t' ->
      constructed t'.

(** What holds of every such tensor. *)
Record Tensor_wf (t : Tensor) : Prop := {
  wf_ndims : (1 <= Dims_ndims (shape t) <= DIMS_LEN)%nat;
  wf_same : same_ndims (shape t) (ldims t) (offs t) (pads t);
  wf_shape : Forall (fun x => 1 <= x) (shape t);
  wf_offs : Forall (fun x => 0 <= x) (offs t);
  wf_pads : Forall (fun x => 1 <= x) (pads t);
  wf_multiple : ldims_multiple_of_pads (shape t) (ldims t) (pads t);
  wf_within : within_ldims (shape t) (ldims t) (offs t)
}.


(** A two-dimensional tensor with default [ldims], [offs] and [pads],
    as [model.tensor({2, 3}, FP32)] makes it; used in the examples. *)
Definition tensor_2x3 : Tensor :=
  stored_tensor [2; 3] FP32 None no_dim no_dim no_dim false (-1) 0 EmptyString.

(** ** The transpose unit test

    [test_transpose_internal] of [ops_transpose_test.cc]: the positions
    it compares, and the three checks of its innermost loop body.  The
    test computes with [int]; with the arguments of
    [test_transpose_fp32] every value stays below [3*2048*96*128], far
    inside the 32-bit range. *)


Definition test_in_idx (n c h w i j k l : Z) : Z :=
  i * c * h * w + j * h * w + k * w + l.



(** ** The transpose op

    [Model::transpose] and the transpose kernel are outside the sources
    this development covers.  Property P9 and scenario 1 of section 8
    describe the result: axis [m] of the output is axis [perm[m]] of the
    input, and the output holds at the permuted index the element the
    input holds at the index.  Tensors of the test have four axes and
    the default dense layout, so an element sits at the row-major
    position of its index.  The contents of a tensor are a function from
    positions to elements; elements are only moved, whatever their
    type. *)

(** Modelled from the spec: the index (or shape) permuted by [perm]:
    component [m] of the result is component [perm[m]] of [x]. *)
Definition permute (perm : list nat) (x : Dims) : Dims := map (Dims_at x) perm.

(** Modelled from the spec: the inverse permutation, the [π⁻¹] of P9:
    position [a] of the inverse holds the place of [a] in [perm]. *)
Fixpoint index_of (a : nat) (perm : list nat) : nat :=
  match perm with
  | [] => 0%nat
  | p :: perm' => if (p =? a)%nat then 0%nat else S (index_of a perm')
  end.

Definition inverse_perm (perm : list nat) : list nat :=
  map (fun a => index_of a perm) (seq 0 (length perm)).

(** Modelled from the spec: [perm] is a permutation of the four axes
    ("any permutation π of axes", P9). *)
Definition is_perm4 (perm : list nat) : bool :=
  (length perm =? 4)%nat &&
  forallb (fun a => existsb (Nat.eqb a) perm) (seq 0 4).






(** ** Schedulers

    [sched.h] declares the scheduler classes.  The only member functions
    it defines are the accessors of [SimpleScheduler]; the op graph
    ([sched_opgraph.h]), [SchedOpSeq], [SchedOp] and the bodies of
    [create_sched_opseq] and [schedule] are outside the sources this
    development covers. *)

(** Modelled from the spec: an op (section 3) has an opcode, ordered
    input and output tensors (by tensor id), the shape it works over and
    the warps its kernel needs.  A model is the list of its ops in
    declaration order. *)
Record Op : Type := mkOp {
  op_code : nat;
  op_inputs : list nat;
  op_outputs : list nat;
  op_shape : Dims;
  op_warps : nat
}.

Abbreviation Model := (list Op).







(** Modelled from the spec: a [SchedOpSeq] holds the ops that share one
    kernel launch; sequences are numbered per depth (section 4.5). *)
Record SchedOpSeq : Type := mkSchedOpSeq {
  seq_id : nat;
  seq_depth : nat;
  seq_ops : list Op
}.

(** Modelled from the spec: a [SchedOp] is an op as the scheduler holds
    it. *)
Record SchedOp : Type := mkSchedOp {
  sched_op : Op
}.







(** [SimpleScheduler], with the members of [SchedulerBase] that are
    plain data. *)
Record SimpleScheduler : Type := mkSimpleScheduler {
  rank : Z;
  world_size : Z;
  wps : nat;
  sched_opseqs : list SchedOpSeq;
  sched_ops : list SchedOp
}.


Definition get_num_sched_ops (s : SimpleScheduler) : nat := length (sched_ops s).


Definition get_sched_ops (s : SimpleScheduler) : list SchedOp := sched_ops s.





(** ** The remaining member functions of [tensor.cc] *)








(** [type_str]. *)
Definition type_str (ty : TensorType) : string :=
  match ty with
  | FP16 => "fp16"
  | FP32 => "fp32"
  | INT32 => "int32"
  | BYTE => "byte"
  end.


(** The row-major position of the index [x] in extents [d]: the sum of
    [x[i]] times the product of the extents after [i]. *)
Fixpoint row_major (d x : Dims) : Z :=
  match d, x with
  | _ :: d', x0 :: x' => x0 * Dims_size d' + row_major d' x'
  | _, _ => 0
  end.


(** The sum of two vectors, component by component. *)
Fixpoint vec_add (x y : list DimType) : list DimType :=
  match x, y with
  | x0 :: x', y0 :: y' => (x0 + y0) :: vec_add x' y'
  | _, _ => []
  end.
(** * Part 2: lemmas and theorems *)

(** C1.  For a tensor of [n] dimensions, [1 <= n <= 4], and any index
    vector, [Tensor::offset] returns the sum over the axes [i] of
    [(offs[i] + idx[i])] times the product of the [ldims[j]], [j > i].
    The statement holds for every tensor value, constructed ones
    included. *)
Theorem Tensor_offset_law (t : Tensor) (idx : list DimType) :
  (1 <= Tensor_ndims t <= 4)%nat ->
  Tensor_offset_at t idx
  = offset_law (ldims t) (offs t) idx (Tensor_ndims t).
Proof.
  unfold Tensor_offset_at, Tensor_offset, Tensor_ndims, offset_law, ldims_after.
  intros [Hlo Hhi].
  destruct (Dims_ndims (shape t)) as [|[|[|[|[|n]]]]]; try lia;
    cbn [seq map fold_right Nat.sub]; cbv zeta; ring.
Qed.

Lemma Tensor_offset_law_witness :
  exists t, (1 <= Tensor_ndims t <= 4)%nat /\
    Tensor_offset_at t [1; 2; 3] = offset_law (ldims t) (offs t) [1; 2; 3] (Tensor_ndims t).
Proof.
  exists (mkTensor None FP32 false (-1) 0 EmptyString
            [2; 3; 4] [4; 6; 8] [1; 1; 1] [2; 3; 4]).
  split; [cbn; lia | apply Tensor_offset_law; cbn; lia].
Defined.

(** ** Reasoning about the error monad and the checking loops *)

Ltac case_if_in H :=
  match type of H with
  | context [if ?c then _ else _] => destruct c eqn:?
  end.

Lemma bind_Ok {A B : Type} (r : Result A) (k : A -> Result B) (b : B) :
  r ≫= k = Ok b <-> exists a, r = Ok a /\ k a = Ok b.
Proof.
  destruct r as [a|e]; cbn.
  - split; [eauto | intros (a' & [= <-] & H); exact H].
  - split; [discriminate | intros (a' & [=] & _)].
Qed.


Lemma for_loop_Ok (body : nat -> Result unit) (n i : nat) :
  for_loop i n body = Ok tt <->
  forall k, (i <= k < i + n)%nat -> body k = Ok tt.
Proof.
  revert i; induction n as [|n IH]; intros i; cbn [for_loop].
  - split; [intros _ k Hk; lia | reflexivity].
  - rewrite bind_Ok. split.
    + intros ([] & Hi & Hrest) k Hk.
      destruct (decide (k = i)) as [->|Hne]; [exact Hi|].
      apply (proj1 (IH (S i)) Hrest). lia.
    + intros H. exists tt. split; [apply H; lia|].
      apply IH. intros k Hk. apply H. lia.
Qed.


Lemma check_multiple_Ok (l p : Dims) (i : nat) :
  check_multiple l p i = Ok tt <->
  Dims_at p i <> 0 /\ (Dims_at p i | Dims_at l i).
Proof.
  unfold check_multiple, LOGERR.
  destruct (Z.eqb_spec (Dims_at p i) 0) as [E|E].
  - split; [discriminate | intros [H _]; contradiction].
  - destruct (Z.eqb_spec (Z.rem (Dims_at l i) (Dims_at p i)) 0) as [R|R]; cbn.
    + split; [|reflexivity]. intros _. split; [exact E|].
      apply Z.rem_divide; assumption.
    + split; [discriminate|]. intros [_ D]. exfalso. apply R.
      apply Z.rem_divide; assumption.
Qed.


Lemma check_boundary_Ok (s l o : Dims) (i : nat) :
  check_boundary s l o i = Ok tt <-> Dims_at o i + Dims_at s i <= Dims_at l i.
Proof.
  unfold check_boundary, LOGERR.
  destruct (Z.gtb_spec (Dims_at o i + Dims_at s i) (Dims_at l i));
    split; intros; try discriminate; try reflexivity; lia.
Qed.


Lemma Dims_of_vector_Ok (v : list DimType) (d : Dims) :
  Dims_of_vector v = Ok d <-> d = v /\ Dims_valid v.
Proof.
  unfold Dims_of_vector, LOGERR, Dims_valid.
  destruct (Nat.ltb_spec DIMS_LEN (length v)) as [L|L].
  - split; [discriminate | intros (_ & H & _); lia].
  - destruct (existsb _ v) eqn:E.
    + split; [discriminate|]. intros (_ & _ & F). exfalso.
      apply existsb_exists in E as (x & Hx & Hneg).
      rewrite Forall_forall in F. apply list_elem_of_In, F in Hx. lia.
    + split; [intros [= <-] | intros [-> _]; reflexivity].
      split; [reflexivity|]. split; [exact L|].
      apply Forall_forall. intros x Hx. apply list_elem_of_In in Hx.
      destruct (Z.ltb_spec x 0) as [N|N]; [|exact N].
      assert (existsb (fun x => x <? 0) v = true) as E'.
      { apply existsb_exists. exists x. split; [exact Hx | lia]. }
      congruence.
Qed.

Lemma Dims_of_vector_Err (v : list DimType) (e : Error) :
  Dims_of_vector v = Err e -> e = ShapeInvalid.
Proof.
  unfold Dims_of_vector, LOGERR. intros H. repeat case_if_in H; congruence.
Qed.

Lemma Dims_of_vector_valid (v : list DimType) :
  Dims_valid v -> Dims_of_vector v = Ok v.
Proof. intros H. apply Dims_of_vector_Ok. auto. Qed.


Lemma Dims_at_repeat (x : Z) (n i : nat) :
  (i < n)%nat -> Dims_at (repeat x n) i = x.
Proof.
  intros H. unfold Dims_at. apply nth_repeat_lt. exact H.
Qed.

Lemma Dims_at_elem (d : Dims) (i : nat) :
  (i < length d)%nat -> In (Dims_at d i) d.
Proof. intros H. unfold Dims_at. apply nth_In. exact H. Qed.

Lemma stored_shape_ndims (shape_ : Dims) :
  (1 <= Dims_ndims (stored_shape shape_))%nat.
Proof.
  unfold stored_shape. destruct shape_; cbn; lia.
Qed.

Section Constructor.

Variables (shape_ : Dims) (type_ : TensorType) (buf_ : option TensorBuf).
Variables (ldims_ offs_ pads_ : Dims) (exported_ : bool).
Variables (imported_rank_ id_ : Z) (name_ : string).

Lemma Tensor_new_Ok (t : Tensor) :
  Tensor_new shape_ type_ buf_ ldims_ offs_ pads_ exported_
             imported_rank_ id_ name_ = Ok t ->
  t = (stored_tensor shape_ type_ buf_ ldims_ offs_ pads_ exported_
                     imported_rank_ id_ name_) /\
  Dims_size shape_ <> 0 /\
  same_ndims (shape t) (ldims t) (offs t) (pads t) /\
  (forall i, (i < Dims_ndims (shape t))%nat -> Dims_at (pads t) i <> 0) /\
  ldims_multiple_of_pads (shape t) (ldims t) (pads t) /\
  within_ldims (shape t) (ldims t) (offs t).
Proof.
  unfold Tensor_new. intros H.
  apply bind_Ok in H as (s & Hs & H).
  apply bind_Ok in H as (l & Hl & H).
  apply bind_Ok in H as (o & Ho & H).
  apply bind_Ok in H as (p & Hp & H).
  apply bind_Ok in H as ([] & Hm & H).
  apply bind_Ok in H as ([] & Hb & H).
  injection H as <-.
  assert (Dims_size shape_ <> 0 /\ s = stored_shape shape_) as [Hsz ->].
  { unfold LOGERR, stored_shape in *.
    destruct (Z.eqb_spec (Dims_size shape_) 0); [discriminate|].
    destruct (Dims_is_no_dim shape_); injection Hs as <-; auto. }
  assert (l = stored_ldims shape_ ldims_ /\
          Dims_ndims l = Dims_ndims (stored_shape shape_)) as [-> Ll].
  { unfold LOGERR, stored_ldims in *.
    destruct (Dims_is_no_dim ldims_); [injection Hl as <-; auto|].
    destruct (Nat.eqb_spec (Dims_ndims (stored_shape shape_)) (Dims_ndims ldims_));
      [injection Hl as <-; auto | discriminate]. }
  assert (o = stored_offs shape_ offs_ /\
          Dims_ndims o = Dims_ndims (stored_shape shape_)) as [-> Lo].
  { unfold LOGERR, stored_offs in *.
    destruct (Dims_is_no_dim offs_).
    - apply Dims_of_vector_Ok in Ho as [-> _].
      split; [reflexivity | apply repeat_length].
    - destruct (Nat.eqb_spec (Dims_ndims (stored_shape shape_)) (Dims_ndims offs_));
        [injection Ho as <-; auto | discriminate]. }
  assert (p = stored_pads shape_ pads_ /\
          Dims_ndims p = Dims_ndims (stored_shape shape_)) as [-> Lp].
  { unfold LOGERR, stored_pads in *.
    destruct (Dims_is_no_dim pads_).
    - apply Dims_of_vector_Ok in Hp as [-> _].
      split; [reflexivity | apply repeat_length].
    - destruct (Nat.eqb_spec (Dims_ndims (stored_shape shape_)) (Dims_ndims pads_));
        [injection Hp as <-; auto | discriminate]. }
  cbn [shape ldims offs pads].
  split; [reflexivity|]. split; [exact Hsz|]. split; [split; auto|].
  pose proof (proj1 (for_loop_Ok _ _ _) Hm) as Hm'.
  pose proof (proj1 (for_loop_Ok _ _ _) Hb) as Hb'.
  split; [|split].
  - intros i Hi. apply (check_multiple_Ok (stored_ldims shape_ ldims_)).
    apply Hm'. lia.
  - intros i Hi. apply check_multiple_Ok. apply Hm'. lia.
  - intros i Hi. apply check_boundary_Ok. apply Hb'. lia.
Qed.



End Constructor.



(** ** Element counts *)

Lemma Dims_size_zero (d : Dims) : Dims_size d = 0 <-> In 0 d.
Proof.
  unfold Dims_size. induction d as [|x d IH]; cbn.
  - split; [lia | tauto].
  - rewrite Z.mul_eq_0, IH. split; intros [H|H]; auto.
Qed.


Lemma Dims_positive (d : Dims) :
  Forall (fun x => 0 <= x) d -> Dims_size d <> 0 ->
  Forall (fun x => 1 <= x) d.
Proof.
  intros Hd Hsz. rewrite Forall_forall in *. intros x Hx.
  specialize (Hd x Hx).
  assert (x <> 0); [|lia].
  intros ->. apply Hsz, Dims_size_zero, list_elem_of_In, Hx.
Qed.

Lemma Tensor_new_size_zero (shape_ : Dims) (type_ : TensorType)
    (buf_ : option TensorBuf) (ldims_ offs_ pads_ : Dims)
    (exported_ : bool) (imported_rank_ id_ : Z) (name_ : string) :
  Dims_size shape_ = 0 ->
  Tensor_new shape_ type_ buf_ ldims_ offs_ pads_ exported_
             imported_rank_ id_ name_ = Err ShapeInvalid.
Proof.
  intros H. unfold Tensor_new. rewrite H. reflexivity.
Qed.

(** C5.  A shape vector with a component [<= 0], or with more than four
    components, never becomes a tensor: building the [Dims] or the
    constructor's element-count test ends with [ShapeInvalid]. *)
Theorem shape_vector_rejected (v : list DimType) (type_ : TensorType)
    (buf_ : option TensorBuf) (ldims_ offs_ pads_ : Dims)
    (exported_ : bool) (imported_rank_ id_ : Z) (name_ : string) :
  Exists (fun x => x <= 0) v \/ (DIMS_LEN < length v)%nat ->
  Tensor_of_shape_vector v type_ buf_ ldims_ offs_ pads_ exported_
                         imported_rank_ id_ name_ = Err ShapeInvalid.
Proof.
  intros Hbad. unfold Tensor_of_shape_vector.
  destruct (Dims_of_vector v) as [d|e] eqn:E; cbn.
  - apply Dims_of_vector_Ok in E as [-> (Hlen & Hnn)].
    destruct Hbad as [Hex | Hlong]; [|lia].
    apply Tensor_new_size_zero, Dims_size_zero.
    apply Exists_exists in Hex as (x & Hx & Hle).
    rewrite Forall_forall in Hnn. specialize (Hnn x Hx).
    assert (x = 0) as -> by lia. apply list_elem_of_In, Hx.
  - f_equal. eapply Dims_of_vector_Err, E.
Qed.

Lemma shape_vector_rejected_witness :
  Tensor_of_shape_vector [3; 0; 5] FP32 None [] [] [] false (-1) 0 EmptyString
    = Err ShapeInvalid /\
  Tensor_of_shape_vector [3; -2] FP32 None [] [] [] false (-1) 0 EmptyString
    = Err ShapeInvalid /\
  Tensor_of_shape_vector [1; 2; 3; 4; 5] FP32 None [] [] [] false (-1) 0 EmptyString
    = Err ShapeInvalid.
Proof.
  split; [|split]; apply shape_vector_rejected.
  - left. apply Exists_cons_tl, Exists_cons_hd. lia.
  - left. apply Exists_cons_tl, Exists_cons_hd. lia.
  - right. unfold DIMS_LEN. cbn. lia.
Defined.



(** ** The last loop of [update_pads] *)

Lemma Dims_at_insert (d : Dims) (i j : nat) (x : Z) :
  Dims_at (<[i := x]> d) j
  = if decide (i = j /\ (i < length d)%nat) then x else Dims_at d j.
Proof.
  unfold Dims_at. rewrite !nth_lookup, list_lookup_insert.
  destruct (decide _); reflexivity.
Qed.

Lemma update_pads_loop (new_pads : Dims) (k a : nat) (t : Tensor) :
  (a + k <= length (pads t))%nat ->
  (a + k <= length (ldims t))%nat ->
  let t' := fold_left (update_pads_step new_pads) (seq a k) t in
  (buf t' = buf t /\ type t' = type t /\ exported t' = exported t /\
   imported_rank t' = imported_rank t /\ id t' = id t /\ name t' = name t /\
   shape t' = shape t /\ offs t' = offs t) /\
  (length (pads t') = length (pads t) /\ length (ldims t') = length (ldims t)) /\
  (forall i, Dims_at (pads t') i
     = if decide (a <= i < a + k)%nat
       then math_lcm (Dims_at (pads t) i) (Dims_at new_pads i)
       else Dims_at (pads t) i) /\
  (forall i, Dims_at (ldims t') i
     = if decide (a <= i < a + k)%nat
       then math_pad (Dims_at (ldims t) i)
                     (math_lcm (Dims_at (pads t) i) (Dims_at new_pads i))
       else Dims_at (ldims t) i).
Proof.
  revert a t. induction k as [|k IH]; intros a t Hp Hl; cbn zeta.
  - cbn [seq fold_left]. repeat split; intros i; destruct (decide _); [lia | reflexivity | lia | reflexivity].
  - cbn [seq fold_left].
    set (t1 := update_pads_step new_pads t a).
    assert (length (pads t1) = length (pads t)) as Lp
      by (cbn; apply length_insert).
    assert (length (ldims t1) = length (ldims t)) as Ll
      by (cbn; apply length_insert).
    destruct (IH (S a) t1 ltac:(lia) ltac:(lia)) as (Hf & (Hlp & Hll) & Hpads & Hldims).
    split; [exact Hf|]. split; [split; congruence|]. split.
    + intros i. rewrite Hpads. subst t1. cbn [update_pads_step pads].
      rewrite Dims_at_insert.
      repeat destruct (decide _); try lia; try reflexivity.
      all: match goal with H : _ = _ /\ _ |- _ => destruct H as [-> _] end;
        reflexivity || lia.
    + intros i. rewrite Hldims. subst t1. cbn [update_pads_step pads ldims].
      rewrite !Dims_at_insert.
      repeat destruct (decide _); try lia; try reflexivity.
      all: match goal with H : _ = _ /\ _ |- _ => destruct H as [-> _] end;
        reflexivity || lia.
Qed.

(** ** [math::lcm] and [math::pad] on positive units *)

Lemma math_lcm_positive (a b : Z) : 1 <= a -> 1 <= b -> 1 <= math_lcm a b.
Proof.
  intros Ha Hb. unfold math_lcm.
  pose proof (Z.lcm_nonneg a b).
  assert (Z.lcm a b <> 0); [|lia].
  rewrite Z.lcm_eq_0. lia.
Qed.





Lemma math_lcm_one (a : Z) : 0 <= a -> math_lcm a 1 = a.
Proof. intros Ha. unfold math_lcm. apply Z.lcm_1_r_nonneg, Ha. Qed.

Lemma math_pad_ge (x u : Z) : 1 <= u -> x <= math_pad x u.
Proof.
  intros Hu. unfold math_pad, ceil_div.
  pose proof (Z.div_mod (- x) u ltac:(lia)).
  pose proof (Z.mod_pos_bound (- x) u ltac:(lia)).
  nia.
Qed.

Lemma math_pad_divide (x u : Z) : (u | math_pad x u).
Proof. unfold math_pad. apply Z.divide_factor_r. Qed.

Lemma math_pad_multiple (x u : Z) : u <> 0 -> (u | x) -> math_pad x u = x.
Proof.
  intros Hu [c ->]. unfold math_pad, ceil_div.
  rewrite <- Z.mul_opp_l, Z.div_mul by exact Hu. lia.
Qed.

Lemma check_all_positive_Ok (ps : list DimType) :
  check_all_positive ps = Ok tt <-> Forall (fun x => 1 <= x) ps.
Proof.
  induction ps as [|p ps IH]; cbn [check_all_positive].
  - split; [constructor | reflexivity].
  - rewrite bind_Ok, Forall_cons. unfold check_positive, LOGERR. split.
    + intros ([] & Hp & Hps). destruct (Z.leb_spec p 0); [discriminate|].
      split; [lia | apply IH, Hps].
    + intros [Hp Hps]. exists tt. destruct (Z.leb_spec p 0); [lia|].
      split; [reflexivity | apply IH, Hps].
Qed.

Lemma aligned_pads_length (n : nat) (ps : list DimType) :
  length (aligned_pads n ps) = Nat.max n (length ps).
Proof.
  unfold aligned_pads. rewrite length_app, repeat_length. lia.
Qed.

Lemma aligned_pads_positive (n : nat) (ps : list DimType) :
  Forall (fun x => 1 <= x) ps -> Forall (fun x => 1 <= x) (aligned_pads n ps).
Proof.
  intros H. unfold aligned_pads. apply Forall_app. split; [|exact H].
  apply Forall_forall. intros x Hx.
  apply list_elem_of_In, repeat_spec in Hx. lia.
Qed.

Lemma Dims_at_Forall (P : Z -> Prop) (d : Dims) (i : nat) :
  Forall P d -> (i < length d)%nat -> P (Dims_at d i).
Proof.
  intros H Hi. rewrite Forall_forall in H.
  apply H, list_elem_of_In, Dims_at_elem, Hi.
Qed.

Lemma Forall_Dims_at (P : Z -> Prop) (d : Dims) :
  (forall i, (i < length d)%nat -> P (Dims_at d i)) -> Forall P d.
Proof.
  intros H. apply Forall_forall. intros x Hx.
  apply list_elem_of_In, (In_nth _ _ 0) in Hx as (i & Hi & <-).
  apply H, Hi.
Qed.

(** What a successful [update_pads] leaves behind, axis by axis. *)
Lemma Tensor_update_pads_Ok (t t' : Tensor) (ps : list DimType) :
  length (pads t) = length (ldims t) ->
  Tensor_update_pads t ps = Ok t' ->
  let n := Dims_ndims (ldims t) in
  let q := aligned_pads n ps in
  Forall (fun x => 1 <= x) ps /\ (length ps <= DIMS_LEN)%nat /\
  (buf t' = buf t /\ type t' = type t /\ exported t' = exported t /\
   imported_rank t' = imported_rank t /\ id t' = id t /\ name t' = name t /\
   shape t' = shape t /\ offs t' = offs t) /\
  (length (pads t') = length (pads t) /\ length (ldims t') = length (ldims t)) /\
  (forall i, (i < n)%nat ->
     Dims_at (pads t') i = math_lcm (Dims_at (pads t) i) (Dims_at q i) /\
     Dims_at (ldims t') i
       = math_pad (Dims_at (ldims t) i)
                  (math_lcm (Dims_at (pads t) i) (Dims_at q i))).
Proof.
  intros Hlen H n q. unfold Tensor_update_pads in H.
  apply bind_Ok in H as ([] & Hpos & H).
  apply bind_Ok in H as (np & Hnp & H).
  injection H as <-.
  apply check_all_positive_Ok in Hpos.
  apply Dims_of_vector_Ok in Hnp as [-> (Hq & _)].
  fold n in Hq |- *. fold q in Hq |- *.
  destruct (update_pads_loop q n 0 t) as (Hf & Hl & Hp & Hld);
    [unfold n, Dims_ndims; lia | unfold n, Dims_ndims; lia |].
  split; [exact Hpos|]. split.
  { unfold q in Hq. rewrite aligned_pads_length in Hq. lia. }
  split; [exact Hf|]. split; [exact Hl|].
  intros i Hi. rewrite Hp, Hld.
  destruct (decide _); [split; reflexivity | lia].
Qed.

Lemma Tensor_update_pads_succeeds (t : Tensor) (ps : list DimType) :
  Forall (fun x => 1 <= x) ps ->
  (length ps <= DIMS_LEN)%nat ->
  (Dims_ndims (ldims t) <= DIMS_LEN)%nat ->
  exists t', Tensor_update_pads t ps = Ok t'.
Proof.
  intros Hpos Hlen Hn. unfold Tensor_update_pads.
  apply check_all_positive_Ok in Hpos as Hc. rewrite Hc. cbn.
  rewrite Dims_of_vector_valid; [cbn; eauto|]. split.
  - rewrite aligned_pads_length. lia.
  - eapply Forall_impl; [apply aligned_pads_positive, Hpos|].
    cbn. intros; lia.
Qed.

(** ** Every tensor of a program is well formed *)

Lemma Tensor_new_wf (shape_ : Dims) (type_ : TensorType)
    (buf_ : option TensorBuf) (ldims_ offs_ pads_ : Dims)
    (exported_ : bool) (imported_rank_ id_ : Z) (name_ : string) (t : Tensor) :
  Dims_valid shape_ -> Dims_valid offs_ -> Dims_valid pads_ ->
  Tensor_new shape_ type_ buf_ ldims_ offs_ pads_ exported_
             imported_rank_ id_ name_ = Ok t ->
  Tensor_wf t.
Proof.
  intros (Hslen & Hsnn) (_ & Honn) (_ & Hpnn) Ht.
  destruct (Tensor_new_Ok _ _ _ _ _ _ _ _ _ _ _ Ht)
    as (-> & Hsz & Hsame & Hnz & Hm & Hb).
  cbn [shape ldims offs pads stored_tensor] in *.
  constructor; cbn [shape ldims offs pads stored_tensor]; try assumption.
  - split; [apply stored_shape_ndims|].
    unfold stored_shape. destruct shape_; cbn in *; unfold DIMS_LEN in *; lia.
  - unfold stored_shape. destruct (Dims_is_no_dim shape_).
    + repeat constructor. lia.
    + apply Dims_positive; assumption.
  - unfold stored_offs. destruct (Dims_is_no_dim offs_); [|exact Honn].
    apply Forall_forall. intros x Hx.
    apply list_elem_of_In, repeat_spec in Hx. lia.
  - apply Forall_Dims_at. intros i Hi.
    destruct Hsame as (_ & _ & Lp). unfold Dims_ndims in Lp.
    assert (0 <= Dims_at (stored_pads shape_ pads_) i) as Hnn.
    { unfold stored_pads in *. destruct (Dims_is_no_dim pads_).
      - rewrite Dims_at_repeat; [lia|]. rewrite repeat_length in Hi. exact Hi.
      - apply (Dims_at_Forall (fun x => 0 <= x)); assumption. }
    specialize (Hnz i ltac:(unfold Dims_ndims; lia)). lia.
Qed.

Lemma Tensor_update_pads_wf (t t' : Tensor) (ps : list DimType) :
  Tensor_wf t -> Tensor_update_pads t ps = Ok t' -> Tensor_wf t'.
Proof.
  intros [Hn (Ll & Lo & Lp) Hs Ho Hp Hm Hb] H.
  apply Tensor_update_pads_Ok in H
    as (Hpos & Hlen & Hf & (Lp' & Ll') & Hat);
    [|unfold Dims_ndims in *; congruence].
  destruct Hf as (_ & _ & _ & _ & _ & _ & Es & Eo).
  unfold ldims_multiple_of_pads, within_ldims, Dims_ndims in *.
  assert (forall i, (i < length (shape t))%nat ->
            1 <= Dims_at (pads t) i /\
            1 <= Dims_at (aligned_pads (length (ldims t)) ps) i) as Hunits.
  { intros i Hi. split.
    - apply (Dims_at_Forall (fun x => 1 <= x)); [assumption | lia].
    - apply (Dims_at_Forall (fun x => 1 <= x));
        [apply aligned_pads_positive, Hpos | rewrite aligned_pads_length; lia]. }
  constructor;
    unfold same_ndims, ldims_multiple_of_pads, within_ldims, Dims_ndims;
    rewrite ?Es, ?Eo; try assumption.
  - split; [|split]; congruence.
  - apply Forall_Dims_at. intros i Hi.
    destruct (Hat i ltac:(lia)) as [-> _].
    destruct (Hunits i ltac:(lia)). apply math_lcm_positive; assumption.
  - intros i Hi.
    destruct (Hat i ltac:(lia)) as [-> ->].
    apply math_pad_divide.
  - intros i Hi.
    destruct (Hat i ltac:(lia)) as [_ ->].
    destruct (Hunits i Hi).
    specialize (Hb i Hi).
    pose proof (math_pad_ge (Dims_at (ldims t) i)
      (math_lcm (Dims_at (pads t) i)
                (Dims_at (aligned_pads (length (ldims t)) ps) i))
      ltac:(apply math_lcm_positive; assumption)).
    lia.
Qed.

Lemma constructed_wf (t : Tensor) : constructed t -> Tensor_wf t.
Proof.
  induction 1 as [? ? ? ? ? ? ? ? ? ? t Hs Hl Ho Hp Ht | t ps t' _ IH Hu].
  - exact (Tensor_new_wf _ _ _ _ _ _ _ _ _ _ t Hs Ho Hp Ht).
  - eapply Tensor_update_pads_wf; eassumption.
Qed.

(** ** Offsets of a well-formed tensor *)







Ltac invert_Forall2 :=
  repeat match goal with
  | H : Forall2 _ _ (_ :: _) |- _ => inversion H; subst; clear H
  | H : Forall2 _ _ [] |- _ => inversion H; subst; clear H
  | H : Forall _ (_ :: _) |- _ => inversion H; subst; clear H
  end.

Ltac same_length l n :=
  let H := fresh in
  assert (length l = n) as H by (cbn in *; lia);
  repeat (destruct l as [|? l]; cbn in H; try lia); clear H.




Lemma Dims_valid_intro (d : Dims) :
  (length d <=? DIMS_LEN)%nat && forallb (fun x => 0 <=? x) d = true ->
  Dims_valid d.
Proof.
  intros H. apply andb_prop in H as [Hl Hf]. split.
  - apply Nat.leb_le, Hl.
  - apply Forall_forall. intros x Hx.
    rewrite forallb_forall in Hf. apply list_elem_of_In, Hf in Hx. lia.
Qed.


(** ** [update_pads] on the tensors of a program *)

Lemma aligned_pads_leading (n : nat) (ps : list DimType) (i : nat) :
  (i < n - length ps)%nat -> Dims_at (aligned_pads n ps) i = 1.
Proof.
  intros Hi. unfold Dims_at, aligned_pads.
  rewrite app_nth1 by (rewrite repeat_length; exact Hi).
  apply nth_repeat_lt, Hi.
Qed.

Lemma aligned_pads_trailing (n : nat) (ps : list DimType) (k : nat) :
  Dims_at (aligned_pads n ps) (n - length ps + k) = Dims_at ps k.
Proof.
  unfold Dims_at, aligned_pads.
  rewrite app_nth2 by (rewrite repeat_length; lia).
  rewrite repeat_length. f_equal. lia.
Qed.


Lemma Dims_ext (d d' : Dims) :
  length d = length d' ->
  (forall i, (i < length d)%nat -> Dims_at d i = Dims_at d' i) ->
  d = d'.
Proof.
  intros Hl H. apply (nth_ext _ _ 0 0); assumption.
Qed.

Lemma Tensor_ext (t t' : Tensor) :
  buf t' = buf t /\ type t' = type t /\ exported t' = exported t /\
  imported_rank t' = imported_rank t /\ id t' = id t /\ name t' = name t /\
  shape t' = shape t /\ offs t' = offs t ->
  ldims t' = ldims t -> pads t' = pads t -> t' = t.
Proof.
  destruct t, t'. cbn. intros (-> & -> & -> & -> & -> & -> & -> & ->) -> ->.
  reflexivity.
Qed.

(** The facts about one successful call that the claims below share. *)
Lemma Tensor_update_pads_axes (t t' : Tensor) (ps : list DimType) :
  Tensor_wf t -> Tensor_update_pads t ps = Ok t' ->
  let q := aligned_pads (Tensor_ndims t) ps in
  forall i, (i < Tensor_ndims t)%nat ->
    1 <= Dims_at (pads t) i /\ 1 <= Dims_at q i /\
    (Dims_at (pads t) i | Dims_at (ldims t) i) /\
    Dims_at (pads t') i = math_lcm (Dims_at (pads t) i) (Dims_at q i) /\
    Dims_at (ldims t') i = math_pad (Dims_at (ldims t) i) (Dims_at (pads t') i).
Proof.
  intros [Hn (Ll & Lo & Lp) Hs Ho Hp Hm Hb] H q i Hi.
  unfold Tensor_ndims, Dims_ndims, ldims_multiple_of_pads in *.
  apply Tensor_update_pads_Ok in H
    as (Hpos & Hlen & _ & _ & Hat); [|congruence].
  unfold Dims_ndims in Hat. subst q. rewrite <- Ll.
  destruct (Hat i ltac:(lia)) as [Ep El].
  split; [apply (Dims_at_Forall (fun x => 1 <= x)); [assumption | lia]|].
  split; [apply (Dims_at_Forall (fun x => 1 <= x));
            [apply aligned_pads_positive, Hpos
            | rewrite aligned_pads_length; lia]|].
  split; [apply Hm, Hi|].
  split; [exact Ep | rewrite El, Ep; reflexivity].
Qed.


Lemma tensor_2x3_constructed : constructed tensor_2x3.
Proof.
  apply (constructed_new [2; 3] FP32 None no_dim no_dim no_dim
                         false (-1) 0 EmptyString);
    try (apply Dims_valid_intro; reflexivity).
  reflexivity.
Qed.





(** C10.  A pad vector [p] with fewer entries than the tensor has axes
    is aligned to the trailing axes: the call succeeds for positive
    entries, the leading [ndims - len(p)] axes keep their [pads] and
    [ldims], and [p[k]] is applied to axis [ndims - len(p) + k]. *)
Theorem update_pads_right_aligned (t : Tensor) (p : list DimType) :
  constructed t ->
  Forall (fun x => 1 <= x) p -> (length p < Tensor_ndims t)%nat ->
  exists t', Tensor_update_pads t p = Ok t' /\
    (forall i, (i < Tensor_ndims t - length p)%nat ->
       Dims_at (pads t') i = Dims_at (pads t) i /\
       Dims_at (ldims t') i = Dims_at (ldims t) i) /\
    (forall k, (k < length p)%nat ->
       let i := (Tensor_ndims t - length p + k)%nat in
       Dims_at (pads t') i = math_lcm (Dims_at (pads t) i) (Dims_at p k) /\
       Dims_at (ldims t') i
         = math_pad (Dims_at (ldims t) i)
                    (math_lcm (Dims_at (pads t) i) (Dims_at p k))).
Proof.
  intros Ht Hpos Hshort. apply constructed_wf in Ht as Hwf.
  assert (Tensor_ndims t <= DIMS_LEN)%nat as Hn
    by (destruct Hwf as [Hn _ _ _ _ _ _]; unfold Tensor_ndims; lia).
  destruct (Tensor_update_pads_succeeds t p Hpos ltac:(lia)) as (t' & Hu).
  { destruct Hwf as [_ (Ll & _) _ _ _ _ _].
    unfold Tensor_ndims, Dims_ndims in *. lia. }
  exists t'. split; [exact Hu|].
  pose proof (Tensor_update_pads_axes t t' p Hwf Hu) as A. cbn zeta in A.
  split.
  - intros i Hi.
    destruct (A i ltac:(lia)) as (Ha & _ & Hm & Ep & El).
    rewrite aligned_pads_leading in Ep by exact Hi.
    rewrite math_lcm_one in Ep by lia.
    split; [exact Ep|]. rewrite El, Ep.
    apply math_pad_multiple; [lia | exact Hm].
  - intros k Hk i.
    destruct (A i ltac:(subst i; lia)) as (_ & _ & _ & Ep & El).
    subst i. rewrite aligned_pads_trailing in Ep.
    split; [exact Ep | rewrite El, Ep; reflexivity].
Qed.

Lemma update_pads_right_aligned_witness :
  Forall (fun x => 1 <= x) [4] /\ (length [4] < Tensor_ndims tensor_2x3)%nat /\
  exists t', Tensor_update_pads tensor_2x3 [4] = Ok t' /\
    (forall i, (i < Tensor_ndims tensor_2x3 - length [4])%nat ->
       Dims_at (pads t') i = Dims_at (pads tensor_2x3) i /\
       Dims_at (ldims t') i = Dims_at (ldims tensor_2x3) i) /\
    (forall k, (k < length [4])%nat ->
       let i := (Tensor_ndims tensor_2x3 - length [4] + k)%nat in
       Dims_at (pads t') i = math_lcm (Dims_at (pads tensor_2x3) i) (Dims_at [4] k) /\
       Dims_at (ldims t') i
         = math_pad (Dims_at (ldims tensor_2x3) i)
                    (math_lcm (Dims_at (pads tensor_2x3) i) (Dims_at [4] k))).
Proof.
  assert (Forall (fun x => 1 <= x) [4]) as Hpos by (repeat constructor; lia).
  assert (length [4] < Tensor_ndims tensor_2x3)%nat as Hshort by (cbn; lia).
  split; [exact Hpos|]. split; [exact Hshort|].
  exact (update_pads_right_aligned tensor_2x3 [4] tensor_2x3_constructed
           Hpos Hshort).
Defined.

(** ** Row-major positions of four-dimensional indices *)


Ltac four_dims d :=
  match goal with
  | H : length d = 4%nat |- _ =>
      destruct d as [|? [|? [|? [|? [|? ?]]]]]; try discriminate H; clear H
  end.





(** ** Permutations of four axes *)

Ltac perm4_cases perm Hp :=
  let a := fresh "a" in let b := fresh "b" in
  let c := fresh "c" in let d := fresh "d" in
  destruct perm as [|a [|b [|c [|d [|? ?]]]]]; try discriminate Hp;
  destruct a as [|[|[|[|?]]]]; destruct b as [|[|[|[|?]]]];
  destruct c as [|[|[|[|?]]]]; destruct d as [|[|[|[|?]]]];
  try discriminate Hp.




Lemma inverse_perm_is_perm4 (perm : list nat) :
  is_perm4 perm = true -> is_perm4 (inverse_perm perm) = true.
Proof. intros Hp. perm4_cases perm Hp; reflexivity. Qed.



Lemma permute_positive (perm : list nat) (d : Dims) :
  is_perm4 perm = true -> length d = 4%nat ->
  Forall (fun s => 1 <= s) d -> Forall (fun s => 1 <= s) (permute perm d).
Proof.
  intros Hp Hd Hpos. four_dims d. invert_Forall2.
  perm4_cases perm Hp; cbn;
    repeat (constructor; [assumption|]); constructor.
Qed.

(** ** The modelled transpose *)






(** The positions the test computes for the input are the offsets of the
    input tensor, which has the default layout. *)
Lemma test_in_idx_is_offset (n c h w i j k l : Z) :
  test_in_idx n c h w i j k l
  = Tensor_offset
      (stored_tensor [n; c; h; w] FP32 None no_dim no_dim no_dim
                     false (-1) 0 EmptyString) i j k l.
Proof.
  unfold test_in_idx, Tensor_offset. cbn. ring.
Qed.

(** ** Depth layers of the op graph *)






(** ** The sequences of a layer *)











(** * Part 3: further properties of [tensor.cc] and of the unit test *)

(** ** Row-major positions *)




Lemma row_major_add (d x y : Dims) :
  length x = length d -> length y = length d ->
  row_major d (vec_add x y) = row_major d x + row_major d y.
Proof.
  revert x y. induction d as [|d0 d IH]; intros x y Hx Hy.
  - destruct x; reflexivity.
  - destruct x as [|x0 x]; [discriminate|]. destruct y as [|y0 y]; [discriminate|].
    cbn [vec_add row_major]. rewrite IH by (cbn in *; lia). ring.
Qed.



Lemma vec_add_length (x y : list DimType) :
  length x = length y -> length (vec_add x y) = length x.
Proof.
  revert y. induction x as [|x0 x IH]; intros [|y0 y] H; cbn in *; try lia.
  rewrite IH; lia.
Qed.





(** The offset of a tensor of one to four axes is the row-major position
    of [offs + idx] in [ldims]. *)
Lemma Tensor_offset_row_major (t : Tensor) (idx : list DimType) :
  (1 <= Dims_ndims (shape t) <= 4)%nat ->
  length (ldims t) = Dims_ndims (shape t) ->
  length (offs t) = Dims_ndims (shape t) ->
  length idx = Dims_ndims (shape t) ->
  Tensor_offset_at t idx = row_major (ldims t) (vec_add (offs t) idx).
Proof.
  destruct t as [b ty ex ir i nm s l o p].
  unfold Tensor_offset_at, Tensor_offset, Dims_ndims. cbn [shape ldims offs].
  intros Hn Ll Lo Li.
  destruct s as [|s0 [|s1 [|s2 [|s3 [|s4 s]]]]]; cbn [length] in *; try lia.
  - same_length l 1%nat. same_length o 1%nat. same_length idx 1%nat.
    cbn. ring.
  - same_length l 2%nat. same_length o 2%nat. same_length idx 2%nat.
    cbn. ring.
  - same_length l 3%nat. same_length o 3%nat. same_length idx 3%nat.
    cbn. ring.
  - same_length l 4%nat. same_length o 4%nat. same_length idx 4%nat.
    cbn. ring.
Qed.


Lemma Tensor_wf_offset_row_major (t : Tensor) (idx : list DimType) :
  Tensor_wf t -> length idx = Dims_ndims (shape t) ->
  Tensor_offset_at t idx = row_major (ldims t) (vec_add (offs t) idx).
Proof.
  intros [Hn (Ll & Lo & _) _ _ _ _ _] Hi.
  apply Tensor_offset_row_major; unfold DIMS_LEN in *; assumption.
Qed.


Lemma vec_add_assoc (x y z : list DimType) :
  vec_add x (vec_add y z) = vec_add (vec_add x y) z.
Proof.
  revert y z. induction x as [|x0 x IH]; intros [|y0 y] [|z0 z]; cbn;
    try reflexivity.
  rewrite IH. f_equal. ring.
Qed.






(** X2.  Offsets are affine in the index: moving the index by [delta]
    moves the offset by the row-major position of [delta] in [ldims],
    that is by [delta[k]] times the product of the [ldims] after [k],
    summed over the axes. *)
Theorem Tensor_offset_affine (t : Tensor) (idx delta : list DimType) :
  constructed t ->
  length idx = Tensor_ndims t -> length delta = Tensor_ndims t ->
  Tensor_offset_at t (vec_add idx delta)
  = Tensor_offset_at t idx + row_major (ldims t) delta.
Proof.
  intros Ht Hi Hd. apply constructed_wf in Ht as Hwf.
  unfold Tensor_ndims in *.
  rewrite !Tensor_wf_offset_row_major
    by (assumption || rewrite vec_add_length; congruence).
  destruct Hwf as [_ (Ll & Lo & _) _ _ _ _ _]. unfold Dims_ndims in *.
  rewrite vec_add_assoc. apply row_major_add.
  - rewrite vec_add_length; congruence.
  - congruence.
Qed.

Lemma Tensor_offset_affine_witness :
  constructed tensor_2x3 /\
  Tensor_offset_at tensor_2x3 (vec_add [0; 1] [1; 1])
  = Tensor_offset_at tensor_2x3 [0; 1] + row_major (ldims tensor_2x3) [1; 1].
Proof.
  split; [exact tensor_2x3_constructed|].
  apply (Tensor_offset_affine tensor_2x3 [0; 1] [1; 1] tensor_2x3_constructed);
    reflexivity.
Defined.





(** ** [update_pads] and the footprint of a tensor *)







(** ** [padded_shape] *)






(** ** [is_sequential] *)







(** ** Default layouts *)



(** ** More about [update_pads] *)



Lemma Tensor_wf_pads_ldims_length (t : Tensor) :
  Tensor_wf t -> length (pads t) = length (ldims t).
Proof.
  intros [_ (Ll & _ & Lp) _ _ _ _ _]. unfold Dims_ndims in *. congruence.
Qed.

(** X10.  Pads of one change nothing: for every tensor of a program,
    [update_pads] with a vector of at most four ones, the empty vector
    included, succeeds and returns the tensor unchanged. *)
Theorem update_pads_ones_identity (t : Tensor) (p : list DimType) :
  constructed t -> Forall (fun x => x = 1) p -> (length p <= DIMS_LEN)%nat ->
  Tensor_update_pads t p = Ok t.
Proof.
  intros Ht Hone Hlen. apply constructed_wf in Ht as Hwf.
  assert (Forall (fun x => 1 <= x) p) as Hpos
    by (eapply Forall_impl; [exact Hone | cbn; intros; lia]).
  destruct (Tensor_update_pads_succeeds t p Hpos Hlen) as (t' & Hu).
  { destruct Hwf as [Hn (Ll & _) _ _ _ _ _]. unfold Dims_ndims in *. lia. }
  rewrite Hu. f_equal.
  pose proof (Tensor_update_pads_axes t t' p Hwf Hu) as A. cbn zeta in A.
  pose proof (Tensor_wf_pads_ldims_length t Hwf) as Hpl.
  assert (forall i, (i < Tensor_ndims t)%nat ->
            Dims_at (aligned_pads (Tensor_ndims t) p) i = 1) as Hq.
  { intros i Hi.
    apply (Dims_at_Forall (fun x => x = 1)).
    - unfold aligned_pads. apply Forall_app. split; [|exact Hone].
      apply Forall_forall. intros x Hx.
      apply list_elem_of_In, repeat_spec in Hx. exact Hx.
    - rewrite aligned_pads_length. lia. }
  destruct Hwf as [_ (Ll & _ & Lp) _ _ _ Hm _].
  apply Tensor_update_pads_Ok in Hu as (_ & _ & Hf & (Lp' & Ll') & _); [|exact Hpl].
  unfold Tensor_ndims, Dims_ndims, ldims_multiple_of_pads in *.
  assert (forall i, (i < length (shape t))%nat ->
            Dims_at (pads t') i = Dims_at (pads t) i /\
            Dims_at (ldims t') i = Dims_at (ldims t) i) as Hsame.
  { intros i Hi. destruct (A i Hi) as (Ha & _ & Hd & Ep & El).
    rewrite (Hq i Hi), math_lcm_one in Ep by lia.
    split; [exact Ep|]. rewrite El, Ep.
    apply math_pad_multiple; [lia | exact Hd]. }
  apply Tensor_ext; [exact Hf | |].
  - apply Dims_ext; [exact Ll'|]. intros i Hi. apply Hsame. lia.
  - apply Dims_ext; [exact Lp'|]. intros i Hi. apply Hsame. lia.
Qed.

Lemma update_pads_ones_identity_witness :
  Tensor_update_pads tensor_2x3 [] = Ok tensor_2x3 /\
  Tensor_update_pads tensor_2x3 [1; 1] = Ok tensor_2x3.
Proof.
  split; apply update_pads_ones_identity;
    try exact tensor_2x3_constructed;
    try (repeat constructor); unfold DIMS_LEN; cbn; lia.
Defined.





(** ** [type_str] *)

(** X13.  The printed name identifies the element type: [type_str] gives
    different names to different types, and never the fallback
    ["none"]. *)
Theorem type_str_injective (a b : TensorType) :
  (type_str a = type_str b -> a = b) /\ type_str a <> "none"%string.
Proof.
  split; [|destruct a; discriminate].
  destruct a, b; cbn; intros H; try reflexivity; discriminate H.
Qed.

Lemma type_str_injective_witness : type_str FP16 <> type_str FP32.
Proof.
  intros E. destruct (type_str_injective FP16 FP32) as [H _].
  discriminate (H E).
Defined.

(** ** The positions of the unit test *)







(** ** Views over one layout *)






